(** * The Qt bridge header [frontends/qt/libserver.h]

    The header declares the C side of the call bridge between the backend
    and the Qt shell: four [static] trampolines that call a function pointer
    handed over by the shell, the typedef of the release capability
    [cppHeapFree], and the [extern] entry points ([serve], [backendCall],
    [handleURI], [systemOpen]) whose bodies live outside this header.

    The embedding is shallow.  A C call through a function pointer is an
    effect on the shell's state, so the trampolines are computations in a
    small state-and-undefined-behaviour monad; every call made through a
    function pointer is also appended to a log, so that "how many calls, in
    which order, with which arguments" can be stated. *)

From stdpp Require Import base option list gmap strings.
From Stdlib Require Import ZArith Lia.

Open Scope Z_scope.

(** ** C values *)

(** [int]: the trampolines only pass a [queryID] on, no arithmetic is done
    on it, so no wrap-around has to be written out. *)
Definition c_int := Z.

(** [char* ], [const char* ] and [void* ]: an address; the conversions between
    them keep the address. *)
Definition ptr := Z.
Definition NULL : ptr := 0.

Section Bridge.

(** The state of the shell (its widgets, its heap, whatever its callbacks
    read and write). The header knows nothing about it. *)
Context {W : Type}.

(** A value of a function-pointer type: the null pointer, or the address of
    a function of the shell, given by what that function does to the shell. *)
Inductive funptr (A R : Type) : Type :=
| NullFn
| Fn (body : A -> W -> R * W).
Global Arguments NullFn {A R}.
Global Arguments Fn {A R} body.

(** [pushNotificationsCallback]: pointer to a function of one [const char* msg]
    returning [void]. *)
Definition pushNotificationsCallback := funptr ptr unit.
(** [responseCallback]: pointer to a function of an [int] and a
    [const char* msg] returning [void]. *)
Definition responseCallback := funptr (c_int * ptr) unit.
(** [notifyUserCallback]: pointer to a function of one [const char* msg]
    returning [void]. *)
Definition notifyUserCallback := funptr ptr unit.
(** [getSaveFilenameCallback]: pointer to a function of one [const char* name]
    returning a [char* ]. *)
Definition getSaveFilenameCallback := funptr ptr ptr.
(** [cppHeapFree]: pointer to a function of one [void* ptr] returning [void]. *)
Definition cppHeapFree := funptr ptr unit.

(** ** Calls through function pointers *)

(** One entry of the call log: which kind of pointer was called, with which
    arguments, and what it returned. *)
Inductive event : Type :=
| CallPush (msg : ptr)
| CallRespond (queryID : c_int) (msg : ptr)
| CallNotify (msg : ptr)
| CallSaveFilename (suggestedfilename : ptr) (ret : ptr)
| CallFree (p : ptr).

Record mstate : Type := MState { shell : W; calls : list event }.

(** The result of running C code: it returns a value in a new state, or its
    behaviour is undefined (here: a call through a null function pointer). *)
Inductive outcome (A : Type) : Type :=
| Returns (a : A) (s : mstate)
| Undefined.
Global Arguments Returns {A} a s.
Global Arguments Undefined {A}.

Definition M (A : Type) : Type := mstate -> outcome A.

Definition ret {A} (a : A) : M A := fun s => Returns a s.

Definition bind {A B} (m : M A) (k : A -> M B) : M B :=
  fun s => match m s with
           | Returns a s' => k a s'
           | Undefined => Undefined
           end.

Definition defined {A} (o : outcome A) : Prop :=
  match o with Returns _ _ => True | Undefined => False end.

(** The C expression [f(a)] for a function pointer [f]. *)
Definition call {A R} (ev : A -> R -> event) (f : funptr A R) (a : A) : M R :=
  fun s => match f with
           | NullFn => Undefined
           | Fn body =>
               let '(r, w) := body a (shell s) in
               Returns r {| shell := w; calls := calls s ++ [ev a r] |}
           end.

End Bridge.

Global Arguments funptr : clear implicits.
Global Arguments mstate : clear implicits.
Global Arguments outcome : clear implicits.
Global Arguments M : clear implicits.
Global Arguments pushNotificationsCallback : clear implicits.
Global Arguments responseCallback : clear implicits.
Global Arguments notifyUserCallback : clear implicits.
Global Arguments getSaveFilenameCallback : clear implicits.
Global Arguments cppHeapFree : clear implicits.

(** stdpp's monad notations ([x ← m; k] and [m ;; k]) for [M W]. *)
Global Instance M_ret {W} : MRet (M W) := fun A => @ret W A.
Global Instance M_bind {W} : MBind (M W) := fun A B k m => @bind W A B m k.

(** ** The trampolines *)

Section Trampolines.
Context {W : Type}.

(** [static void pushNotify(pushNotificationsCallback f, const char* msg) { f(msg); }] *)
Definition pushNotify (f : pushNotificationsCallback W) (msg : ptr) : M W unit :=
  call (fun m _ => CallPush m) f msg.

(** [static void respond(responseCallback f, int queryID, const char* msg) { f(queryID, msg); }] *)
Definition respond (f : responseCallback W) (queryID : c_int) (msg : ptr) : M W unit :=
  call (fun a _ => CallRespond a.1 a.2) f (queryID, msg).

(** [static void notifyUser(notifyUserCallback f, const char* msg) { f(msg); }] *)
Definition notifyUser (f : notifyUserCallback W) (msg : ptr) : M W unit :=
  call (fun m _ => CallNotify m) f msg.

(** [static char* getSaveFilename(getSaveFilenameCallback f, const char* suggestedfilename) { return f(suggestedfilename); }] *)
Definition getSaveFilename (f : getSaveFilenameCallback W) (suggestedfilename : ptr)
  : M W ptr :=
  r ← call CallSaveFilename f suggestedfilename; mret r.

(** The header has no trampoline for [cppHeapFree]; a holder of the pointer
    calls it as [cppHeapFreeFn(p)]. *)
Definition callHeapFree (f : cppHeapFree W) (p : ptr) : M W unit :=
  call (fun q _ => CallFree q) f p.

End Trampolines.

(** ** Sequences of calls made by the backend *)

(** The five function pointers [serve] receives, under the names of its
    parameters. *)
Record CallbackTable (W : Type) : Type := {
  cppHeapFreeFn : cppHeapFree W;
  pushNotificationsFn : pushNotificationsCallback W;
  responseFn : responseCallback W;
  notifyUserFn : notifyUserCallback W;
  getSaveFilenameFn : getSaveFilenameCallback W
}.
Global Arguments cppHeapFreeFn {W} _.
Global Arguments pushNotificationsFn {W} _.
Global Arguments responseFn {W} _.
Global Arguments notifyUserFn {W} _.
Global Arguments getSaveFilenameFn {W} _.

(** One use of the bridge by the backend. *)
Inductive action : Type :=
| APush (msg : ptr)
| ARespond (queryID : c_int) (msg : ptr)
| ANotify (msg : ptr)
| ASaveFilename (suggestedfilename : ptr)
| ARelease (p : ptr).

Section Scripts.
Context {W : Type}.

(** An action goes through the trampoline of its slot and yields the value
    the C call yields ([NULL] stands for "no value"). *)
Definition perform (tbl : CallbackTable W) (a : action) : M W ptr :=
  match a with
  | APush msg => pushNotify (pushNotificationsFn tbl) msg ;; mret NULL
  | ARespond queryID msg => respond (responseFn tbl) queryID msg ;; mret NULL
  | ANotify msg => notifyUser (notifyUserFn tbl) msg ;; mret NULL
  | ASaveFilename name => getSaveFilename (getSaveFilenameFn tbl) name
  | ARelease p => callHeapFree (cppHeapFreeFn tbl) p ;; mret NULL
  end.

Fixpoint perform_all (tbl : CallbackTable W) (acts : list action) : M W unit :=
  match acts with
  | [] => mret tt
  | a :: rest => perform tbl a ;; perform_all tbl rest
  end.

(** The backend pushing the notifications [msgs], one call after the other. *)
Fixpoint push_all (f : pushNotificationsCallback W) (msgs : list ptr) : M W unit :=
  match msgs with
  | [] => mret tt
  | msg :: rest => pushNotify f msg ;; push_all f rest
  end.

(** The backend answering the queries of [script], one call after the other. *)
Fixpoint respond_all (f : responseCallback W) (script : list (c_int * ptr)) : M W unit :=
  match script with
  | [] => mret tt
  | (queryID, msg) :: rest => respond f queryID msg ;; respond_all f rest
  end.

(** What the shell's state becomes when its function [body] is applied to
    the arguments [args] in order. *)
Definition shell_after {A R} (body : A -> W -> R * W) (args : list A) (w : W) : W :=
  foldl (fun w a => (body a w).2) w args.

(** All slots of a table hold a function. *)
Definition wired (tbl : CallbackTable W) : Prop :=
  cppHeapFreeFn tbl <> NullFn /\ pushNotificationsFn tbl <> NullFn /\
  responseFn tbl <> NullFn /\ notifyUserFn tbl <> NullFn /\
  getSaveFilenameFn tbl <> NullFn.

End Scripts.

(** The messages pushed, in the order of the log. *)
Definition pushed (log : list event) : list ptr :=
  omap (fun e => match e with CallPush m => Some m | _ => None end) log.

(** The notifications the backend issues in a sequence of actions. *)
Definition issued_pushes (acts : list action) : list ptr :=
  omap (fun a => match a with APush m => Some m | _ => None end) acts.

(** The calls the log [after] has on top of the log [before]. *)
Definition new_calls (before after : list event) : list event :=
  drop (length before) after.

(** ** The query correlator, as the spec words it

    Used only to compare [respond] with: "completes exactly one Query;
    invoking it twice for the same identifier, or for an identifier never
    issued, is a protocol violation that must be detected and reported".
    [outstanding] are the identifiers issued and not yet answered. *)
Definition spec_respondToQuery (outstanding : gset Z) (queryID : c_int)
  : bool * gset Z :=
  if decide (queryID ∈ outstanding)
  then (true, outstanding ∖ {[queryID]})
  else (false, outstanding).

(** The calls the spec lets through to the shell, of a script of answers. *)
Fixpoint spec_forwarded (outstanding : gset Z) (script : list (c_int * ptr))
  : list event :=
  match script with
  | [] => []
  | (queryID, msg) :: rest =>
      let '(ok, outstanding') := spec_respondToQuery outstanding queryID in
      (if ok then [CallRespond queryID msg] else [])
        ++ spec_forwarded outstanding' rest
  end.

(** No answer of the script is a protocol violation. *)
Fixpoint spec_accepts (outstanding : gset Z) (script : list (c_int * ptr)) : bool :=
  match script with
  | [] => true
  | (queryID, _) :: rest =>
      let '(ok, outstanding') := spec_respondToQuery outstanding queryID in
      ok && spec_accepts outstanding' rest
  end.

(** The calls [respond] lets through to the shell, of a script of answers. *)
Definition code_forwarded {W} (f : responseCallback W) (script : list (c_int * ptr))
    (s : mstate W) : option (list event) :=
  match respond_all f script s with
  | Returns _ s' => Some (new_calls (calls s) (calls s'))
  | Undefined => None
  end.

(** The claim that the respond path detects violations: the shell sees the
    answers the correlator accepts, and no others. *)
Definition respond_detects_violations {W} (f : responseCallback W)
    (outstanding : gset Z) (script : list (c_int * ptr)) (s : mstate W) : Prop :=
  code_forwarded f script s = Some (spec_forwarded outstanding script).

(** ** The declarations of the header *)

Inductive ctype : Type :=
| TVoid
| TInt
| TCharPtr
| TConstCharPtr
| TVoidPtr
| TNamed (name : string).

(** A function-pointer typedef: its name, the parameter types and the
    return type of the functions pointed to. *)
Record typedef_decl : Type := {
  td_name : string;
  td_params : list ctype;
  td_ret : ctype
}.

Record extern_decl : Type := {
  fn_name : string;
  fn_params : list (string * ctype);
  fn_ret : ctype
}.

Definition typedefs : list typedef_decl := [
  {| td_name := "pushNotificationsCallback"; td_params := [TConstCharPtr]; td_ret := TVoid |};
  {| td_name := "responseCallback"; td_params := [TInt; TConstCharPtr]; td_ret := TVoid |};
  {| td_name := "notifyUserCallback"; td_params := [TConstCharPtr]; td_ret := TVoid |};
  {| td_name := "getSaveFilenameCallback"; td_params := [TConstCharPtr]; td_ret := TCharPtr |};
  {| td_name := "cppHeapFree"; td_params := [TVoidPtr]; td_ret := TVoid |}
].

Definition backendCall_decl : extern_decl :=
  {| fn_name := "backendCall"; fn_params := [("p0", TInt); ("p1", TCharPtr)]; fn_ret := TVoid |}.

Definition handleURI_decl : extern_decl :=
  {| fn_name := "handleURI"; fn_params := [("p0", TCharPtr)]; fn_ret := TVoid |}.

Definition serve_decl : extern_decl :=
  {| fn_name := "serve";
     fn_params := [
       ("cppHeapFreeFn", TNamed "cppHeapFree");
       ("pushNotificationsFn", TNamed "pushNotificationsCallback");
       ("responseFn", TNamed "responseCallback");
       ("notifyUserFn", TNamed "notifyUserCallback");
       ("preferredLocale", TConstCharPtr);
       ("getSaveFilenameFn", TNamed "getSaveFilenameCallback")
     ];
     fn_ret := TVoid |}.

Definition systemOpen_decl : extern_decl :=
  {| fn_name := "systemOpen"; fn_params := [("p0", TCharPtr)]; fn_ret := TVoid |}.

(** A parameter type is a callback slot when it names one of the
    function-pointer typedefs. *)
Definition is_callback_type (t : ctype) : bool :=
  match t with
  | TNamed n => bool_decide (n ∈ map td_name typedefs)
  | _ => false
  end.

(** A call of one of the entry points the shell uses to reach the backend. *)
Inductive inbound_call : Type :=
| BackendCall (p0 : c_int) (p1 : ptr)
| HandleURI (p0 : ptr)
| SystemOpen (p0 : ptr).

(** ** The dispatcher

    The header only declares [serve]; its body is on the backend's side of
    the bridge. *)

(** The C test [f == NULL] on a function pointer. *)
Definition is_null {W A R} (f : funptr W A R) : bool :=
  match f with NullFn => true | Fn _ => false end.

(** No slot of the table is null. *)
Definition wiredb {W} (tbl : CallbackTable W) : bool :=
  negb (is_null (cppHeapFreeFn tbl)) && negb (is_null (pushNotificationsFn tbl))
  && negb (is_null (responseFn tbl)) && negb (is_null (notifyUserFn tbl))
  && negb (is_null (getSaveFilenameFn tbl)).

(** Modelled from the spec: where a process stands with respect to [serve]
    ("must be called exactly once per process"); the sources have no such
    state. *)
Inductive phase : Type :=
| NotStarted   (* serve has not been called *)
| Serving      (* the backend is processing *)
| Terminated   (* the backend has shut down *)
| Failed.      (* startup failed with a fatal error *)

(** Modelled from the spec: the errors of section 7 of the spec that the
    dispatcher reports. *)
Inductive report : Type :=
| UnusableSlot      (* fatal startup error: a callback slot is not wired *)
| AlreadyStarted.   (* startup error: serve was called before *)

Global Instance phase_eq_dec : EqDecision phase.
Proof. solve_decision. Defined.

Section Dispatcher.
Context {W : Type}.

(** The backend's internal processing is not part of the bridge: [B] is its
    state, [next] what it does next (nothing more when it has terminated, or
    one use of the bridge and how it goes on with the value that comes
    back), [inbound] how a call from the shell changes its state. *)
Context {B : Type}.
Variable next : B -> option (action * (ptr -> B)).
Variable inbound : inbound_call -> B -> B.

(** Modelled from the spec: the state of the process the bridge lives in:
    the CallbackTable and the Locale of section 3 of the spec, the backend,
    the errors reported so far, and the shell with the log of the calls made
    into it. *)
Record process : Type := Process {
  stage : phase;
  table : option (CallbackTable W);
  locale : option string;
  backend : B;
  reports : list report;
  machine : mstate W
}.

Definition reported (r : report) (p : process) : process :=
  Process (stage p) (table p) (locale p) (backend p) (reports p ++ [r]) (machine p).

(** Modelled from the spec: the start of [serve], whose body is missing
    from the sources.  "accepts the five callback slots plus a locale
    string, constructs the CallbackTable, starts the backend's internal
    processing"; "if any callback slot is unusable [...] the Dispatcher must
    fail fast at startup [...] reported as a single fatal error before any
    event processing begins"; "calling serve a second time after it has
    started fails fast with a reported startup error rather than corrupting
    the first session's CallbackTable". *)
Definition serve_start (cppHeapFreeFn : cppHeapFree W)
    (pushNotificationsFn : pushNotificationsCallback W)
    (responseFn : responseCallback W) (notifyUserFn : notifyUserCallback W)
    (preferredLocale : string) (getSaveFilenameFn : getSaveFilenameCallback W)
    (p : process) : process :=
  let tbl := Build_CallbackTable W cppHeapFreeFn pushNotificationsFn responseFn
               notifyUserFn getSaveFilenameFn in
  match stage p with
  | NotStarted =>
      if wiredb tbl
      then Process Serving (Some tbl) (Some preferredLocale) (backend p)
             (reports p) (machine p)
      else Process Failed (table p) (locale p) (backend p)
             (reports p ++ [UnusableSlot]) (machine p)
  | _ => reported AlreadyStarted p
  end.

(** Modelled from the spec: one step of "the backend's internal
    processing", missing from the sources: while serving, the backend either
    terminates or uses one slot of the table, through the trampoline of that
    slot.  [None]: the step's behaviour is undefined. *)
Definition backend_step (p : process) : option process :=
  match stage p, table p with
  | Serving, Some tbl =>
      match next (backend p) with
      | None =>
          Some (Process Terminated (table p) (locale p) (backend p) (reports p) (machine p))
      | Some (a, k) =>
          match perform tbl a (machine p) with
          | Returns r m =>
              Some (Process Serving (table p) (locale p) (k r) (reports p) m)
          | Undefined => None
          end
      end
  | _, _ => Some p
  end.

(** Modelled from the spec: [backendCall], [handleURI] and [systemOpen],
    declared and not defined in the sources: "safely callable at any time
    after serve has started processing"; what they do before is left open by
    the spec, here they are rejected. *)
Definition inbound_step (c : inbound_call) (p : process) : process :=
  match stage p with
  | Serving =>
      Process Serving (table p) (locale p) (inbound c (backend p)) (reports p) (machine p)
  | _ => p
  end.

(** Modelled from the spec: the bridge seen from outside (the threads of
    section 5 of the spec, interleaved; the sources have no code for them):
    some thread calls [serve], the backend makes a step, or the shell calls
    in. *)
Inductive bridge_op : Type :=
| OpServe (tbl : CallbackTable W) (preferredLocale : string)
| OpBackend
| OpInbound (c : inbound_call).

Definition bridge_step (p : process) (op : bridge_op) : option process :=
  match op with
  | OpServe tbl loc =>
      Some (serve_start (cppHeapFreeFn tbl) (pushNotificationsFn tbl) (responseFn tbl)
              (notifyUserFn tbl) loc (getSaveFilenameFn tbl) p)
  | OpBackend => backend_step p
  | OpInbound c => Some (inbound_step c p)
  end.

Fixpoint bridge_run (ops : list bridge_op) (p : process) : option process :=
  match ops with
  | [] => Some p
  | op :: rest =>
      match bridge_step p op with
      | Some p' => bridge_run rest p'
      | None => None
      end
  end.

(** The result of a call of [serve], which returns no value: it has
    returned, it is still blocked when the fuel is used up, or its behaviour
    is undefined (a call through a null slot). *)
Inductive serve_result : Type :=
| Returned (p : process)
| Blocked (p : process)
| Crashed.

(** Modelled from the spec: the blocking part of [serve], missing from the
    sources: the calling thread stays in the backend's processing until the
    backend has terminated. *)
Fixpoint serve_loop (fuel : nat) (p : process) : serve_result :=
  match stage p with
  | Serving =>
      match fuel with
      | O => Blocked p
      | S fuel' =>
          match backend_step p with
          | Some p' => serve_loop fuel' p'
          | None => Crashed
          end
      end
  | _ => Returned p
  end.

(** Modelled from the spec: [serve], whose body is missing from the sources:
    "[...] starts the backend's internal processing, and blocks the calling
    thread until the backend terminates"; a call that is rejected at startup
    returns at once. *)
Definition serve (cppHeapFreeFn : cppHeapFree W)
    (pushNotificationsFn : pushNotificationsCallback W)
    (responseFn : responseCallback W) (notifyUserFn : notifyUserCallback W)
    (preferredLocale : string) (getSaveFilenameFn : getSaveFilenameCallback W)
    (fuel : nat) (p : process) : serve_result :=
  let p' := serve_start cppHeapFreeFn pushNotificationsFn responseFn notifyUserFn
              preferredLocale getSaveFilenameFn p in
  match stage p with
  | NotStarted => serve_loop fuel p'
  | _ => Returned p'
  end.

End Dispatcher.

Global Arguments process : clear implicits.
Global Arguments serve_result : clear implicits.
Global Arguments bridge_op : clear implicits.

(** A process in which [serve] has not been called. *)
Definition init_process {W B} (b : B) (w : W) : process W B :=
  Process NotStarted None None b [] (MState w []).

(** Two processes that differ at most in the errors reported so far. *)
Definition same_session {W B} (p q : process W B) : Prop :=
  stage p = stage q /\ table p = table q /\ locale p = locale q /\
  backend p = backend q /\ machine p = machine q.

(** While serving, the process holds a table with no null slot. *)
Definition ready {W B} (p : process W B) : Prop :=
  stage p = Serving -> exists tbl, table p = Some tbl /\ wired tbl.

(** What a step of the bridge keeps, once [serve] has been called. *)
Definition kept {W B} (p q : process W B) : Prop :=
  table q = table p /\ locale q = locale p /\ stage q <> NotStarted /\ ready q.

(** ** A shell and a backend to run the definitions on

    The shell keeps the list of the arguments its functions were called
    with.  Its save dialog answers a request for the name at address [n]
    with a buffer at address [n + 1000], and cancels (returns [NULL]) when
    asked for the name at address [13]. *)
Definition rec_push : pushNotificationsCallback (list Z) :=
  Fn (fun msg w => (tt, w ++ [msg])).

Definition rec_respond : responseCallback (list Z) :=
  Fn (fun a w => (tt, w ++ [a.1; a.2])).

Definition rec_notify : notifyUserCallback (list Z) :=
  Fn (fun msg w => (tt, w ++ [msg])).

Definition rec_save : getSaveFilenameCallback (list Z) :=
  Fn (fun name w => (if decide (name = 13) then NULL else name + 1000, w ++ [name])).

Definition rec_free : cppHeapFree (list Z) :=
  Fn (fun p w => (tt, w ++ [p])).

Definition rec_table : CallbackTable (list Z) :=
  Build_CallbackTable (list Z) rec_free rec_push rec_respond rec_notify rec_save.

Definition s0 : mstate (list Z) := MState [] [].

(** A backend that works through a list of actions, releases every buffer
    a save dialog hands it, and notifies the user of every URI it is given. *)
Definition script_next (b : list action) : option (action * (ptr -> list action)) :=
  match b with
  | [] => None
  | ASaveFilename name :: rest =>
      Some (ASaveFilename name,
            fun r => if decide (r = NULL) then rest else ARelease r :: rest)
  | a :: rest => Some (a, fun _ => rest)
  end.

Definition script_inbound (c : inbound_call) (b : list action) : list action :=
  match c with
  | HandleURI uri => b ++ [ANotify uri]
  | _ => b
  end.

(** A fresh process of that backend with four things to do, and the same
    process after a first call of [serve] has started it. *)
Definition p0 : process (list Z) (list action) :=
  init_process [APush 1; ASaveFilename 5; ARespond 7 2; ANotify 3] [].

Definition p_serving : process (list Z) (list action) :=
  serve_start rec_free rec_push rec_respond rec_notify "en" rec_save p0.

(** ** Reading a sequence of actions against the log *)

(** The slot an action goes through holds the null pointer. *)
Definition slot_null {W} (tbl : CallbackTable W) (a : action) : bool :=
  match a with
  | APush _ => is_null (pushNotificationsFn tbl)
  | ARespond _ _ => is_null (responseFn tbl)
  | ANotify _ => is_null (notifyUserFn tbl)
  | ASaveFilename _ => is_null (getSaveFilenameFn tbl)
  | ARelease _ => is_null (cppHeapFreeFn tbl)
  end.

(** The logged call [e] is the call of the action [a]: through the slot of
    [a], with the arguments of [a] (whatever it returned). *)
Definition is_call_of (a : action) (e : event) : bool :=
  match a, e with
  | APush msg, CallPush msg' => bool_decide (msg = msg')
  | ARespond queryID msg, CallRespond queryID' msg' =>
      bool_decide (queryID = queryID') && bool_decide (msg = msg')
  | ANotify msg, CallNotify msg' => bool_decide (msg = msg')
  | ASaveFilename name, CallSaveFilename name' _ => bool_decide (name = name')
  | ARelease p, CallFree p' => bool_decide (p = p')
  | _, _ => false
  end.

(** The run of a sequence of actions with the state it had reached when it
    stopped: C makes the calls one after the other, so the calls made before
    a call through a null pointer have happened. The second component are
    the actions not made: none when the sequence was run to its end, else
    the action that went through a null slot and those after it. *)
Fixpoint perform_until_fault {W} (tbl : CallbackTable W) (acts : list action)
    (s : mstate W) : mstate W * list action :=
  match acts with
  | [] => (s, [])
  | a :: rest =>
      match perform tbl a s with
      | Returns _ s' => perform_until_fault tbl rest s'
      | Undefined => (s, a :: rest)
      end
  end.

(** ** A shell with a heap

    The buffers [getSaveFilename] hands over live on the heap of the shell's
    runtime: a block per address, here with the string it holds. [broken]
    records that the heap was misused (a release of an address that is no
    live block). *)
Record shell_heap : Type := ShellHeap {
  blocks : gmap Z string;
  broken : bool
}.

(** [malloc] of the shell's runtime: an address that is not null and not in
    use. *)
Definition fresh_block (h : shell_heap) : ptr :=
  fresh ({[NULL]} ∪ dom (blocks h)).

(** The release function the shell passes as [cppHeapFreeFn], as the header's
    comment has it: "equivalent to C.free": nothing happens for a null
    pointer, a live block is given back, anything else misuses the heap. *)
Definition cpp_free : cppHeapFree shell_heap :=
  Fn (fun p h =>
        (tt,
         if decide (p = NULL) then h
         else match blocks h !! p with
              | Some _ => ShellHeap (delete p (blocks h)) (broken h)
              | None => ShellHeap (blocks h) true
              end)).

(** A save dialog that copies its answer into a block of its own, as
    [strdup] does; a cancelled dialog answers with the empty string. *)
Definition strdup_save (answer : string) : getSaveFilenameCallback shell_heap :=
  Fn (fun _ h =>
        (fresh_block h,
         ShellHeap (<[fresh_block h := answer]> (blocks h)) (broken h))).

(** A save dialog that returns the address of a static array. *)
Definition static_save (address : ptr) : getSaveFilenameCallback shell_heap :=
  Fn (fun _ h => (address, h)).

Definition heap_s0 : mstate shell_heap := MState (ShellHeap ∅ false) [].

(** The buffer the holder of the pointer [r] has to release: none for the
    null pointer, else the live block at [r]. *)
Definition buffer_to_release (h : shell_heap) (r : ptr) : option string :=
  if decide (r = NULL) then None else blocks h !! r.

(** The cancellation sentinel in the words of the claim, "null/empty": the
    null pointer, or a pointer to the empty string. Used only to state the
    claim. *)
Definition spec_sentinel (h : shell_heap) (r : ptr) : Prop :=
  r = NULL \/ blocks h !! r = Some String.EmptyString.

(** The claim about the result of [getSaveFilename], in its words: the
    result is a buffer to release or the sentinel, and with the sentinel
    there is no buffer to release. *)
Definition save_result_as_claimed (f : getSaveFilenameCallback shell_heap)
    (name : ptr) (s : mstate shell_heap) : Prop :=
  match getSaveFilename f name s with
  | Returns r s' =>
      (is_Some (buffer_to_release (shell s') r) \/ spec_sentinel (shell s') r)
      /\ (spec_sentinel (shell s') r -> buffer_to_release (shell s') r = None)
  | Undefined => True
  end.

Ltac unfold_monad :=
  unfold mbind, mret, M_bind, M_ret, bind, ret in *.

(** * Properties of the trampolines *)

Section TrampolineFacts.
Context {W : Type}.
Implicit Types (s : mstate W) (msg name p : ptr) (queryID : c_int).

Lemma call_Fn {A R} (ev : A -> R -> event) (body : A -> W -> R * W) (a : A) s :
  call ev (Fn body) a s
  = Returns (body a (shell s)).1
      (MState (body a (shell s)).2 (calls s ++ [ev a (body a (shell s)).1])).
Proof. unfold call. destruct (body a (shell s)) as [r w]. reflexivity. Qed.

Lemma call_NullFn {A R} (ev : A -> R -> event) (a : A) s :
  call (W:=W) ev NullFn a s = Undefined.
Proof. reflexivity. Qed.

Lemma call_defined {A R} (ev : A -> R -> event) (f : funptr W A R) (a : A) s :
  defined (call ev f a s) <-> f <> NullFn.
Proof.
  destruct f as [|body].
  - rewrite call_NullFn. simpl. split; [tauto | congruence].
  - rewrite call_Fn. simpl. split; [discriminate | tauto].
Qed.

Lemma pushNotify_Fn (body : ptr -> W -> unit * W) msg s :
  pushNotify (Fn body) msg s
  = Returns tt (MState (body msg (shell s)).2 (calls s ++ [CallPush msg])).
Proof.
  unfold pushNotify. rewrite call_Fn.
  destruct (body msg (shell s)) as [[] w]. reflexivity.
Qed.

Lemma respond_Fn (body : c_int * ptr -> W -> unit * W) queryID msg s :
  respond (Fn body) queryID msg s
  = Returns tt (MState (body (queryID, msg) (shell s)).2
                  (calls s ++ [CallRespond queryID msg])).
Proof.
  unfold respond. rewrite call_Fn.
  destruct (body (queryID, msg) (shell s)) as [[] w]. reflexivity.
Qed.

Lemma notifyUser_Fn (body : ptr -> W -> unit * W) msg s :
  notifyUser (Fn body) msg s
  = Returns tt (MState (body msg (shell s)).2 (calls s ++ [CallNotify msg])).
Proof.
  unfold notifyUser. rewrite call_Fn.
  destruct (body msg (shell s)) as [[] w]. reflexivity.
Qed.

Lemma getSaveFilename_Fn (body : ptr -> W -> ptr * W) name s :
  getSaveFilename (Fn body) name s
  = Returns (body name (shell s)).1
      (MState (body name (shell s)).2
         (calls s ++ [CallSaveFilename name (body name (shell s)).1])).
Proof. unfold getSaveFilename. unfold_monad. rewrite call_Fn. reflexivity. Qed.

Lemma callHeapFree_Fn (body : ptr -> W -> unit * W) p s :
  callHeapFree (Fn body) p s
  = Returns tt (MState (body p (shell s)).2 (calls s ++ [CallFree p])).
Proof.
  unfold callHeapFree. rewrite call_Fn.
  destruct (body p (shell s)) as [[] w]. reflexivity.
Qed.

Lemma getSaveFilename_defined (f : getSaveFilenameCallback W) name s :
  defined (getSaveFilename f name s) <-> f <> NullFn.
Proof.
  destruct f as [|body].
  - split; [intros [] | congruence].
  - rewrite getSaveFilename_Fn. simpl. split; [discriminate | tauto].
Qed.

(** C10: each of the four trampolines calls its function-pointer argument
    without a null check: the call has a result exactly when the pointer is
    not null, and for a null pointer its behaviour is undefined. *)
Theorem trampolines_do_not_check_for_null :
  (forall (f : pushNotificationsCallback W) msg s,
      (defined (pushNotify f msg s) <-> f <> NullFn)
      /\ pushNotify NullFn msg s = Undefined)
  /\ (forall (f : responseCallback W) queryID msg s,
      (defined (respond f queryID msg s) <-> f <> NullFn)
      /\ respond NullFn queryID msg s = Undefined)
  /\ (forall (f : notifyUserCallback W) msg s,
      (defined (notifyUser f msg s) <-> f <> NullFn)
      /\ notifyUser NullFn msg s = Undefined)
  /\ (forall (f : getSaveFilenameCallback W) name s,
      (defined (getSaveFilename f name s) <-> f <> NullFn)
      /\ getSaveFilename NullFn name s = Undefined).
Proof.
  repeat split; try reflexivity;
    try (apply call_defined); try (apply getSaveFilename_defined).
Qed.

(** C8: [notifyUser] delivers as [pushNotify] does: for every pointer [f],
    message and state both are undefined (when [f] is null), or both return
    no value after one call of [f] with the message, leaving the shell in
    the same state; the only difference is the slot the call is logged
    under. *)
Theorem notifyUser_delivers_as_pushNotify (f : funptr W ptr unit) msg s :
  match pushNotify f msg s, notifyUser f msg s with
  | Returns tt s1, Returns tt s2 =>
      shell s1 = shell s2
      /\ calls s1 = calls s ++ [CallPush msg]
      /\ calls s2 = calls s ++ [CallNotify msg]
  | Undefined, Undefined => f = NullFn
  | _, _ => False
  end.
Proof.
  destruct f as [|body].
  - reflexivity.
  - rewrite pushNotify_Fn, notifyUser_Fn. simpl. auto.
Qed.

End TrampolineFacts.

(** * Sequences of calls *)

Section ScriptFacts.
Context {W : Type}.
Implicit Types (s : mstate W) (tbl : CallbackTable W).

Lemma shell_after_cons {A R} (body : A -> W -> R * W) (a : A) (args : list A) (w : W) :
  shell_after body (a :: args) w = shell_after body args (body a w).2.
Proof. reflexivity. Qed.

Lemma push_all_Fn (body : ptr -> W -> unit * W) (msgs : list ptr) s :
  push_all (Fn body) msgs s
  = Returns tt (MState (shell_after body msgs (shell s)) (calls s ++ map CallPush msgs)).
Proof.
  revert s. induction msgs as [|msg rest IH]; intros s.
  - simpl. unfold_monad. rewrite app_nil_r. destruct s; reflexivity.
  - cbn [push_all]. unfold_monad. rewrite pushNotify_Fn, IH.
    cbn [shell calls map]. rewrite shell_after_cons, <- app_assoc. reflexivity.
Qed.

Lemma respond_all_Fn (body : c_int * ptr -> W -> unit * W)
    (script : list (c_int * ptr)) s :
  respond_all (Fn body) script s
  = Returns tt (MState (shell_after body script (shell s))
                  (calls s ++ map (fun a => CallRespond a.1 a.2) script)).
Proof.
  revert s. induction script as [|[queryID msg] rest IH]; intros s.
  - simpl. unfold_monad. rewrite app_nil_r. destruct s; reflexivity.
  - cbn [respond_all]. unfold_monad. rewrite respond_Fn, IH.
    cbn [shell calls map fst snd]. rewrite shell_after_cons, <- app_assoc. reflexivity.
Qed.

Lemma pushed_app (l1 l2 : list event) : pushed (l1 ++ l2) = pushed l1 ++ pushed l2.
Proof. apply omap_app. Qed.

Lemma issued_pushes_app (l1 l2 : list action) :
  issued_pushes (l1 ++ l2) = issued_pushes l1 ++ issued_pushes l2.
Proof. apply omap_app. Qed.

(** One action of the backend adds one call to the log, a push exactly when
    the action is a push; it is undefined only if a slot is null. *)
Lemma perform_one tbl (a : action) s :
  match perform tbl a s with
  | Returns _ s' =>
      exists e, calls s' = calls s ++ [e] /\ pushed [e] = issued_pushes [a]
  | Undefined => ~ wired tbl
  end.
Proof.
  destruct tbl as [ff fp fr fn fs]. unfold wired. cbn.
  destruct a as [msg | queryID msg | msg | name | p]; cbn [perform]; unfold_monad; cbn.
  - destruct fp as [|body]; [cbn; intros (?&?&?&?&?); congruence|]. rewrite pushNotify_Fn. eauto.
  - destruct fr as [|body]; [cbn; intros (?&?&?&?&?); congruence|]. rewrite respond_Fn. eauto.
  - destruct fn as [|body]; [cbn; intros (?&?&?&?&?); congruence|]. rewrite notifyUser_Fn. eauto.
  - destruct fs as [|body]; [cbn; intros (?&?&?&?&?); congruence|]. rewrite getSaveFilename_Fn. eauto.
  - destruct ff as [|body]; [cbn; intros (?&?&?&?&?); congruence|]. rewrite callHeapFree_Fn. eauto.
Qed.

Lemma perform_all_pushed tbl (acts : list action) s :
  match perform_all tbl acts s with
  | Returns _ s' => pushed (calls s') = pushed (calls s) ++ issued_pushes acts
  | Undefined => ~ wired tbl
  end.
Proof.
  revert s. induction acts as [|a rest IH]; intros s.
  - cbn. rewrite app_nil_r. reflexivity.
  - cbn [perform_all]. unfold_monad.
    pose proof (perform_one tbl a s) as H1.
    destruct (perform tbl a s) as [r s1|]; [|exact H1].
    destruct H1 as (e & Hcalls & He).
    specialize (IH s1). destruct (perform_all tbl rest s1) as [u s2|]; [|exact IH].
    rewrite IH, Hcalls, pushed_app, He, <- app_assoc.
    rewrite <- issued_pushes_app. reflexivity.
Qed.

(** C5: the shell sees the pushed notifications in the order in which the
    backend issued them. One call of [pushNotify] is one call of the
    registered function with the given message; pushing a list of messages
    applies the function to them in that order and logs exactly those calls;
    and when pushes are mixed with calls through the other slots, the pushes
    in the log are still the issued ones, in their order. *)
Theorem pushNotify_keeps_the_order_of_issue
    (body : ptr -> W -> unit * W) (msg : ptr) (msgs : list ptr)
    tbl (acts : list action) s :
  pushNotify (Fn body) msg s
  = Returns tt (MState (body msg (shell s)).2 (calls s ++ [CallPush msg]))
  /\ push_all (Fn body) msgs s
     = Returns tt (MState (shell_after body msgs (shell s))
                     (calls s ++ map CallPush msgs))
  /\ match perform_all tbl acts s with
     | Returns _ s' => pushed (calls s') = pushed (calls s) ++ issued_pushes acts
     | Undefined => ~ wired tbl
     end.
Proof.
  split; [apply pushNotify_Fn|].
  split; [apply push_all_Fn | apply perform_all_pushed].
Qed.

End ScriptFacts.

(** * The respond path and the query correlator *)

Section RespondFacts.
Context {W : Type}.
Implicit Types (s : mstate W) (outstanding : gset Z) (script : list (c_int * ptr)).

Lemma new_calls_app (before added : list event) :
  new_calls before (before ++ added) = added.
Proof. unfold new_calls. apply drop_app_length. Qed.

Lemma code_forwarded_Fn (body : c_int * ptr -> W -> unit * W) script s :
  code_forwarded (Fn body) script s
  = Some (map (fun a => CallRespond a.1 a.2) script).
Proof.
  unfold code_forwarded. rewrite respond_all_Fn. cbn [calls].
  rewrite new_calls_app. reflexivity.
Qed.

(** The correlator never lets more calls through than there are answers. *)
Lemma spec_forwarded_length outstanding script :
  (length (spec_forwarded outstanding script) <= length script)%nat.
Proof.
  revert outstanding. induction script as [|[queryID msg] rest IH]; intros outstanding.
  - reflexivity.
  - cbn [spec_forwarded]. unfold spec_respondToQuery.
    destruct (decide (queryID ∈ outstanding)); cbn [length app].
    + specialize (IH (outstanding ∖ {[queryID]})). lia.
    + specialize (IH outstanding). lia.
Qed.

(** It lets all of them through exactly when none of them is a violation. *)
Lemma spec_forwarded_all outstanding script :
  spec_forwarded outstanding script = map (fun a => CallRespond a.1 a.2) script
  <-> spec_accepts outstanding script = true.
Proof.
  revert outstanding. induction script as [|[queryID msg] rest IH]; intros outstanding.
  - split; reflexivity.
  - cbn [spec_forwarded spec_accepts map fst snd]. unfold spec_respondToQuery.
    destruct (decide (queryID ∈ outstanding)); cbn [andb app].
    + rewrite <- IH. split; [intros H; injection H; auto | intros ->; reflexivity].
    + split; [|discriminate]. intros H.
      pose proof (spec_forwarded_length outstanding rest) as Hlen.
      rewrite H in Hlen. cbn [length] in Hlen. rewrite length_map in Hlen. lia.
Qed.

(** C1, as the code has it: [respond] passes every call on to the shell's
    function, once, in order, whatever the identifier: also an identifier
    answered before or never issued. It keeps no record of identifiers and
    reports nothing. So the shell sees what the spec's correlator would let
    it see exactly for the scripts in which the backend answers only
    outstanding identifiers, each once: that is left to the caller. *)
Theorem respond_forwards_every_call
    (body : c_int * ptr -> W -> unit * W) outstanding script s :
  respond_all (Fn body) script s
  = Returns tt (MState (shell_after body script (shell s))
                  (calls s ++ map (fun a => CallRespond a.1 a.2) script))
  /\ (respond_detects_violations (Fn body) outstanding script s
      <-> spec_accepts outstanding script = true).
Proof.
  split; [apply respond_all_Fn|].
  unfold respond_detects_violations. rewrite code_forwarded_Fn.
  rewrite <- spec_forwarded_all. split; [intros H; injection H; auto | intros ->; reflexivity].
Qed.

End RespondFacts.

(** C1, as the claim states it, fails: with identifier 7 outstanding, the
    second answer to 7 reaches the shell as the first did; and with nothing
    outstanding, an answer to the never issued 42 reaches the shell. *)
Lemma respond_forwards_duplicate_and_unknown :
  ~ respond_detects_violations rec_respond {[7]} [(7, 100); (7, 200)] s0
  /\ ~ respond_detects_violations rec_respond ∅ [(42, 100)] s0
  /\ respond_all rec_respond [(7, 100); (7, 200)] s0
     = Returns tt (MState [7; 100; 7; 200] [CallRespond 7 100; CallRespond 7 200])
  /\ spec_forwarded {[7]} [(7, 100); (7, 200)] = [CallRespond 7 100]
  /\ respond_all rec_respond [(42, 100)] s0
     = Returns tt (MState [42; 100] [CallRespond 42 100])
  /\ spec_forwarded ∅ [(42, 100)] = [].
Proof.
  assert (H7 : spec_forwarded {[7]} [(7, 100); (7, 200)] = [CallRespond 7 100])
    by (vm_compute; reflexivity).
  assert (H42 : spec_forwarded ∅ [(42, 100)] = []) by (vm_compute; reflexivity).
  unfold respond_detects_violations.
  rewrite H7, H42. unfold rec_respond. rewrite !code_forwarded_Fn, !respond_all_Fn.
  repeat split; try discriminate.
Qed.

(** * The dispatcher *)

Lemma wiredb_wired {W} (tbl : CallbackTable W) : wiredb tbl = true <-> wired tbl.
Proof.
  destruct tbl as [ff fp fr fn fs]. unfold wiredb, wired. cbn.
  destruct ff, fp, fr, fn, fs; cbn; split; try discriminate; try reflexivity;
    try (intros (?&?&?&?&?); congruence).
  all: intros _; repeat split; discriminate.
Qed.

Lemma perform_wired {W} (tbl : CallbackTable W) (a : action) (s : mstate W) :
  wired tbl -> exists r s', perform tbl a s = Returns r s'.
Proof.
  intros Hw. pose proof (perform_one tbl a s) as H.
  destruct (perform tbl a s) as [r s'|]; [eauto | contradiction].
Qed.

Section DispatcherFacts.
Context {W B : Type}.
Variable next : B -> option (action * (ptr -> B)).
Variable inbound : inbound_call -> B -> B.
Implicit Types (p q : process W B) (ops : list (bridge_op W)).

Lemma serve_start_NotStarted_wired ff fp fr fn loc fs p :
  stage p = NotStarted ->
  wired (Build_CallbackTable W ff fp fr fn fs) ->
  serve_start ff fp fr fn loc fs p
  = Process Serving (Some (Build_CallbackTable W ff fp fr fn fs)) (Some loc)
      (backend p) (reports p) (machine p).
Proof.
  intros Hst Hw. unfold serve_start. rewrite Hst.
  apply wiredb_wired in Hw. rewrite Hw. reflexivity.
Qed.

Lemma serve_start_NotStarted_unwired ff fp fr fn loc fs p :
  stage p = NotStarted ->
  ~ wired (Build_CallbackTable W ff fp fr fn fs) ->
  serve_start ff fp fr fn loc fs p
  = Process Failed (table p) (locale p) (backend p)
      (reports p ++ [UnusableSlot]) (machine p).
Proof.
  intros Hst Hw. unfold serve_start. rewrite Hst.
  destruct (wiredb _) eqn:E; [|reflexivity].
  apply wiredb_wired in E. contradiction.
Qed.

Lemma serve_start_started ff fp fr fn loc fs p :
  stage p <> NotStarted ->
  serve_start ff fp fr fn loc fs p = reported AlreadyStarted p.
Proof.
  intros Hst. unfold serve_start. destruct (stage p); [contradiction | | |]; reflexivity.
Qed.

Lemma kept_trans p p1 q : kept p p1 -> kept p1 q -> kept p q.
Proof.
  intros (Ht & Hl & _ & _) (Ht' & Hl' & Hs & Hr). unfold kept.
  rewrite Ht', Hl'. auto.
Qed.

Lemma kept_refl p : stage p <> NotStarted -> ready p -> kept p p.
Proof. intros Hs Hr. unfold kept. auto. Qed.

Lemma backend_step_kept p :
  stage p <> NotStarted -> ready p ->
  exists q, backend_step next p = Some q /\ kept p q
            /\ reports q = reports p
            /\ (stage p <> Serving -> q = p)
            /\ (stage p = Serving ->
                (stage q = Serving /\ next (backend p) <> None)
                \/ (stage q = Terminated /\ next (backend p) = None
                    /\ backend q = backend p)).
Proof.
  intros Hst Hr. unfold backend_step.
  destruct (stage p) eqn:Es; try contradiction.
  - destruct (Hr Es) as (tbl & Ht & Hw). rewrite Ht.
    destruct (next (backend p)) as [[a k]|] eqn:En.
    + destruct (perform_wired tbl a (machine p) Hw) as (r & s' & Hp). rewrite Hp.
      eexists; split; [reflexivity|].
      split; [unfold kept, ready; cbn; rewrite Ht; eauto 10|].
      split; [reflexivity|]. split; [intros H; contradiction|].
      intros _. left. split; [reflexivity | discriminate].
    + eexists; split; [reflexivity|].
      split; [unfold kept, ready; cbn; rewrite Ht; repeat split; discriminate|].
      split; [reflexivity|]. split; [intros H; contradiction|].
      intros _. right. auto.
  - exists p. split; [reflexivity|].
    split; [unfold kept, ready; rewrite Es; repeat split; discriminate|].
    split; [reflexivity|]. split; [reflexivity | discriminate].
  - exists p. split; [reflexivity|].
    split; [unfold kept, ready; rewrite Es; repeat split; discriminate|].
    split; [reflexivity|]. split; [reflexivity | discriminate].
Qed.

Lemma bridge_step_kept p (op : bridge_op W) :
  stage p <> NotStarted -> ready p ->
  exists q, bridge_step next inbound p op = Some q /\ kept p q.
Proof.
  intros Hst Hr. destruct op as [tbl loc | | c]; cbn [bridge_step].
  - rewrite serve_start_started by exact Hst.
    eexists; split; [reflexivity|]. unfold kept. cbn. auto.
  - destruct (backend_step_kept p Hst Hr) as (q & Hq & Hk & _). eauto.
  - eexists; split; [reflexivity|]. unfold inbound_step, kept, ready in *.
    destruct (stage p) eqn:Es; cbn; rewrite ?Es; repeat split; auto; discriminate.
Qed.

Lemma bridge_run_kept ops p :
  stage p <> NotStarted -> ready p ->
  exists q, bridge_run next inbound ops p = Some q /\ kept p q.
Proof.
  revert p. induction ops as [|op rest IH]; intros p Hst Hr.
  - exists p. split; [reflexivity|]. unfold kept. auto.
  - cbn [bridge_run].
    destruct (bridge_step_kept p op Hst Hr) as (p1 & H1 & Hk).
    rewrite H1. destruct (IH p1) as (q & Hq & Hk'); [apply Hk | apply Hk |].
    exists q. eauto using kept_trans.
Qed.

(** The blocking loop returns only when the backend has terminated. *)
Lemma serve_loop_blocks (fuel : nat) p :
  stage p = Serving -> ready p ->
  match serve_loop next fuel p with
  | Returned q =>
      stage q = Terminated /\ next (backend q) = None /\ kept p q
  | Blocked q => stage q = Serving /\ kept p q
  | Crashed => False
  end.
Proof.
  revert p. induction fuel as [|fuel IH]; intros p Hs Hr.
  - cbn [serve_loop]. rewrite Hs. cbn beta iota. split; [exact Hs|].
    apply kept_refl; [rewrite Hs; discriminate | exact Hr].
  - cbn [serve_loop]. rewrite Hs.
    assert (Hst : stage p <> NotStarted) by (rewrite Hs; discriminate).
    destruct (backend_step_kept p Hst Hr) as (p1 & H1 & Hk & _ & _ & Hcase).
    rewrite H1. destruct (Hcase Hs) as [[Hserving _] | (Hterm & Hnone & Hb)].
    + assert (Hr1 : ready p1) by apply Hk.
      specialize (IH p1 Hserving Hr1).
      destruct (serve_loop next fuel p1) as [q|q|]; [| |exact IH].
      * destruct IH as (? & ? & Hk'). eauto using kept_trans.
      * destruct IH as (? & Hk'). eauto using kept_trans.
    + destruct fuel; cbn [serve_loop]; rewrite Hterm; cbn beta iota;
        (split; [exact Hterm|]); (split; [rewrite Hb; exact Hnone | exact Hk]).
Qed.

(** Once the backend, stepped on its own, has terminated within [n] steps,
    a call with fuel [n] has returned. *)
Lemma serve_loop_returns (n : nat) p q :
  bridge_run next inbound (replicate n OpBackend) p = Some q ->
  stage q <> Serving ->
  serve_loop next n p = Returned q.
Proof.
  revert p. induction n as [|n IH]; intros p Hrun Hq.
  - cbn in Hrun. injection Hrun as ->. cbn.
    destruct (stage q); try reflexivity. contradiction.
  - cbn [replicate bridge_run bridge_step] in Hrun. cbn [serve_loop].
    destruct (backend_step next p) as [p1|] eqn:E1; [|discriminate].
    destruct (decide (stage p = Serving)) as [Hs|Hs].
    + rewrite Hs. apply IH; assumption.
    + assert (p1 = p) as ->.
      { unfold backend_step in E1. destruct (stage p); try contradiction;
          injection E1; auto. }
      specialize (IH p Hrun Hq).
      destruct n; cbn [serve_loop] in IH |- *;
        destruct (stage p); try contradiction; exact IH.
Qed.

(** More fuel does not change a call that has returned. *)
Lemma serve_loop_more_fuel (fuel more : nat) p q :
  serve_loop next fuel p = Returned q ->
  serve_loop next (fuel + more) p = Returned q.
Proof.
  revert p. induction fuel as [|fuel IH]; intros p.
  - cbn [Nat.add]. destruct more; cbn [serve_loop];
      destruct (stage p); try discriminate; auto.
  - cbn [Nat.add serve_loop]. destruct (stage p); auto.
    destruct (backend_step next p) as [p1|]; [apply IH | discriminate].
Qed.

End DispatcherFacts.

Section DispatcherClaims.
Context {W B : Type}.
Variable next : B -> option (action * (ptr -> B)).
Variable inbound : inbound_call -> B -> B.
Implicit Types (p q : process W B) (ops : list (bridge_op W)).

Lemma same_session_refl p : same_session p p.
Proof. unfold same_session. auto. Qed.

Lemma same_session_reported (r : report) p : same_session p (reported r p).
Proof. unfold same_session. cbn. auto. Qed.

(** Processes that differ only in the errors reported go on alike. *)
Lemma bridge_step_same_session p q (op : bridge_op W) :
  same_session p q ->
  match bridge_step next inbound p op, bridge_step next inbound q op with
  | Some p', Some q' => same_session p' q'
  | None, None => True
  | _, _ => False
  end.
Proof.
  intros H. destruct p as [sp tp lp bp rp mp], q as [sq tq lq bq rq mq].
  unfold same_session in H. cbn in H. destruct H as (-> & -> & -> & -> & ->).
  destruct op as [tbl loc | | c]; cbn [bridge_step].
  - unfold serve_start, reported. cbn.
    destruct sq; [destruct (wiredb _)| | |]; unfold same_session; cbn; auto.
  - unfold backend_step. cbn.
    destruct sq; try (unfold same_session; cbn; auto; fail).
    destruct tq as [tbl|]; [|unfold same_session; cbn; auto].
    destruct (next bq) as [[a k]|]; [|unfold same_session; cbn; auto].
    destruct (perform tbl a mq) as [r m|]; [|exact I].
    unfold same_session; cbn; auto.
  - unfold inbound_step. cbn.
    destruct sq; unfold same_session; cbn; auto.
Qed.

Lemma bridge_run_same_session ops p q :
  same_session p q ->
  match bridge_run next inbound ops p, bridge_run next inbound ops q with
  | Some p', Some q' => same_session p' q'
  | None, None => True
  | _, _ => False
  end.
Proof.
  revert p q. induction ops as [|op rest IH]; intros p q Hpq.
  - exact Hpq.
  - cbn [bridge_run]. pose proof (bridge_step_same_session p q op Hpq) as H.
    destruct (bridge_step next inbound p op) as [p1|],
             (bridge_step next inbound q op) as [q1|]; try contradiction.
    + apply IH. exact H.
    + exact I.
Qed.

(** After a failed start nothing is processed any more. *)
Lemma bridge_run_Failed ops p :
  stage p = Failed ->
  exists q, bridge_run next inbound ops p = Some q
            /\ stage q = Failed /\ machine q = machine p /\ backend q = backend p.
Proof.
  revert p. induction ops as [|op rest IH]; intros p Hs.
  - exists p. auto.
  - cbn [bridge_run].
    assert (exists p1, bridge_step next inbound p op = Some p1 /\ stage p1 = Failed
                       /\ machine p1 = machine p /\ backend p1 = backend p)
      as (p1 & H1 & Hs1 & Hm1 & Hb1).
    { destruct op as [tbl loc | | c]; cbn [bridge_step].
      - unfold serve_start. rewrite Hs. eexists; split; [reflexivity|]. cbn. auto.
      - unfold backend_step. rewrite Hs. eauto.
      - unfold inbound_step. rewrite Hs. eauto. }
    rewrite H1. destruct (IH p1 Hs1) as (q & Hq & Hsq & Hmq & Hbq).
    exists q. rewrite Hmq, Hbq. auto.
Qed.

(** C4: [serve] is declared with six parameters, the release function, the
    three notification and response callbacks, the locale string and the
    save-filename callback, in this order, five of them callback slots, and
    returns no value. A call with usable slots in a fresh process stays in
    the backend's processing until the backend has terminated: when it has
    returned, the backend has terminated; while it is blocked the backend is
    still serving; more fuel does not change a call that has returned; and
    the call has returned once the backend, stepped on its own, has come to
    its end. *)
Theorem serve_takes_the_slots_and_blocks
    (ff : cppHeapFree W) (fp : pushNotificationsCallback W)
    (fr : responseCallback W) (fn : notifyUserCallback W) (loc : string)
    (fs : getSaveFilenameCallback W) (fuel : nat) p
    (Hfresh : stage p = NotStarted)
    (Hwired : wired (Build_CallbackTable W ff fp fr fn fs)) :
  fn_ret serve_decl = TVoid
  /\ map snd (fn_params serve_decl)
     = [TNamed "cppHeapFree"; TNamed "pushNotificationsCallback";
        TNamed "responseCallback"; TNamed "notifyUserCallback";
        TConstCharPtr; TNamed "getSaveFilenameCallback"]
  /\ map is_callback_type (map snd (fn_params serve_decl))
     = [true; true; true; true; false; true]
  /\ match serve next ff fp fr fn loc fs fuel p with
     | Returned q => stage q = Terminated /\ next (backend q) = None
     | Blocked q => stage q = Serving
     | Crashed => False
     end
  /\ (forall q (more : nat),
        serve next ff fp fr fn loc fs fuel p = Returned q ->
        serve next ff fp fr fn loc fs (fuel + more) p = Returned q)
  /\ (forall q (n : nat),
        bridge_run next inbound (replicate n OpBackend)
          (serve_start ff fp fr fn loc fs p) = Some q ->
        stage q <> Serving ->
        serve next ff fp fr fn loc fs n p = Returned q).
Proof.
  split; [reflexivity|]. split; [reflexivity|]. split; [vm_compute; reflexivity|].
  unfold serve. rewrite Hfresh.
  rewrite (serve_start_NotStarted_wired ff fp fr fn loc fs p Hfresh Hwired).
  set (p1 := Process Serving _ _ _ _ _).
  assert (Hs1 : stage p1 = Serving) by reflexivity.
  assert (Hr1 : ready p1) by (intros _; eexists; split; [reflexivity | exact Hwired]).
  split; [|split].
  - pose proof (serve_loop_blocks next fuel p1 Hs1 Hr1) as H.
    destruct (serve_loop next fuel p1); tauto.
  - intros q more. apply serve_loop_more_fuel.
  - intros q n. apply serve_loop_returns.
Qed.

(** C6: a call of [serve] in a process in which [serve] was called before
    returns at once, reports a startup error, and leaves the table, the
    locale, the backend and the shell of the first session as they are; the
    first session then goes on as it would have without the second call. *)
Theorem second_serve_is_rejected
    (ff : cppHeapFree W) (fp : pushNotificationsCallback W)
    (fr : responseCallback W) (fn : notifyUserCallback W) (loc : string)
    (fs : getSaveFilenameCallback W) (fuel : nat) p ops
    (Hstarted : stage p <> NotStarted) :
  let p' := reported AlreadyStarted p in
  serve next ff fp fr fn loc fs fuel p = Returned p'
  /\ reports p' = reports p ++ [AlreadyStarted]
  /\ table p' = table p
  /\ same_session p p'
  /\ match bridge_run next inbound ops p, bridge_run next inbound ops p' with
     | Some q, Some q' => same_session q q'
     | None, None => True
     | _, _ => False
     end.
Proof.
  intros p'. split.
  - unfold serve. rewrite serve_start_started by exact Hstarted.
    destruct (stage p); [contradiction | | |]; reflexivity.
  - split; [reflexivity|]. split; [reflexivity|].
    split; [apply same_session_reported|].
    apply bridge_run_same_session, same_session_reported.
Qed.

(** C7: when one of the five slots passed to [serve] is null, the call
    returns at once with one fatal error reported; no callback has been
    called and the backend has not been stepped, and neither happens later,
    whatever is tried on the bridge. *)
Theorem serve_fails_fast_on_an_unusable_slot
    (ff : cppHeapFree W) (fp : pushNotificationsCallback W)
    (fr : responseCallback W) (fn : notifyUserCallback W) (loc : string)
    (fs : getSaveFilenameCallback W) (fuel : nat) p ops
    (Hfresh : stage p = NotStarted)
    (Hnull : ff = NullFn \/ fp = NullFn \/ fr = NullFn \/ fn = NullFn \/ fs = NullFn) :
  exists p',
    serve next ff fp fr fn loc fs fuel p = Returned p'
    /\ stage p' = Failed
    /\ reports p' = reports p ++ [UnusableSlot]
    /\ machine p' = machine p /\ backend p' = backend p
    /\ table p' = table p /\ locale p' = locale p
    /\ exists q, bridge_run next inbound ops p' = Some q
                 /\ stage q = Failed /\ machine q = machine p
                 /\ backend q = backend p.
Proof.
  assert (Hw : ~ wired (Build_CallbackTable W ff fp fr fn fs)).
  { unfold wired. cbn. intros (?&?&?&?&?). tauto. }
  eexists. split.
  - unfold serve. rewrite Hfresh.
    rewrite (serve_start_NotStarted_unwired ff fp fr fn loc fs p Hfresh Hw).
    destruct fuel; reflexivity.
  - cbn. repeat (split; [reflexivity|]).
    apply (bridge_run_Failed ops (Process Failed _ _ _ _ _)). reflexivity.
Qed.

(** C9: a call of [serve] that starts the backend sets the locale to the
    string passed, and nothing that happens at the bridge afterwards (steps
    of the backend, calls from the shell, further calls of [serve] with
    other locales) changes it; it is still that string when the call is
    blocked and when it returns. *)
Theorem locale_is_set_once
    (ff : cppHeapFree W) (fp : pushNotificationsCallback W)
    (fr : responseCallback W) (fn : notifyUserCallback W) (loc : string)
    (fs : getSaveFilenameCallback W) (fuel : nat) p ops
    (Hfresh : stage p = NotStarted)
    (Hwired : wired (Build_CallbackTable W ff fp fr fn fs)) :
  let p1 := serve_start ff fp fr fn loc fs p in
  locale p1 = Some loc
  /\ (exists q, bridge_run next inbound ops p1 = Some q /\ locale q = Some loc)
  /\ match serve next ff fp fr fn loc fs fuel p with
     | Returned q | Blocked q => locale q = Some loc
     | Crashed => False
     end.
Proof.
  intros p1. unfold serve. rewrite Hfresh. fold p1. subst p1.
  rewrite (serve_start_NotStarted_wired ff fp fr fn loc fs p Hfresh Hwired).
  set (p1 := Process Serving _ _ _ _ _).
  assert (Hs1 : stage p1 = Serving) by reflexivity.
  assert (Hst : stage p1 <> NotStarted) by discriminate.
  assert (Hr1 : ready p1) by (intros _; eexists; split; [reflexivity | exact Hwired]).
  split; [reflexivity|]. split.
  - destruct (bridge_run_kept next inbound ops p1 Hst Hr1) as (q & Hq & _ & Hl & _).
    exists q. split; [exact Hq | exact Hl].
  - pose proof (serve_loop_blocks next fuel p1 Hs1 Hr1) as H.
    destruct (serve_loop next fuel p1) as [q|q|].
    + destruct H as (_ & _ & _ & Hl & _). exact Hl.
    + destruct H as (_ & _ & Hl & _). exact Hl.
    + exact H.
Qed.

End DispatcherClaims.

(** * The definitions at work *)

Lemma rec_table_wired : wired rec_table.
Proof. unfold wired. cbn. repeat split; discriminate. Qed.

Example pushNotify_in_order :
  push_all rec_push [11; 12; 13] s0
  = Returns tt (MState [11; 12; 13] [CallPush 11; CallPush 12; CallPush 13]).
Proof. unfold rec_push. rewrite push_all_Fn. reflexivity. Qed.

Example getSaveFilename_chosen_path :
  (r ← getSaveFilename rec_save 5; callHeapFree rec_free r) s0
  = Returns tt (MState [5; 1005] [CallSaveFilename 5 1005; CallFree 1005]).
Proof. reflexivity. Qed.

Example getSaveFilename_cancelled :
  getSaveFilename rec_save 13 s0
  = Returns NULL (MState [13] [CallSaveFilename 13 NULL]).
Proof. reflexivity. Qed.

Example mixed_calls_keep_the_pushes_in_order :
  perform_all rec_table [APush 1; ANotify 2; APush 3; ARespond 7 4; APush 5] s0
  = Returns tt (MState [1; 2; 3; 7; 4; 5]
      [CallPush 1; CallNotify 2; CallPush 3; CallRespond 7 4; CallPush 5]).
Proof. reflexivity. Qed.

Example null_slot_is_undefined :
  pushNotify (W:=list Z) NullFn 1 s0 = Undefined
  /\ respond (W:=list Z) NullFn 7 1 s0 = Undefined
  /\ notifyUser (W:=list Z) NullFn 1 s0 = Undefined
  /\ getSaveFilename (W:=list Z) NullFn 1 s0 = Undefined.
Proof. repeat split. Qed.

(** The call of [serve] in the fresh process: blocked after two steps of the
    backend, returned once the backend has worked off its list. *)
Lemma serve_blocks_witness :
  stage p0 = NotStarted
  /\ wired rec_table
  /\ match serve script_next rec_free rec_push rec_respond rec_notify "en" rec_save 10 p0 with
     | Returned q => stage q = Terminated /\ script_next (backend q) = None
     | Blocked q => stage q = Serving
     | Crashed => False
     end
  /\ serve script_next rec_free rec_push rec_respond rec_notify "en" rec_save 10 p0
     = Returned (Process Terminated (Some rec_table) (Some "en") [] []
         (MState [1; 5; 1005; 7; 2; 3]
            [CallPush 1; CallSaveFilename 5 1005; CallFree 1005;
             CallRespond 7 2; CallNotify 3]))
  /\ serve script_next rec_free rec_push rec_respond rec_notify "en" rec_save 2 p0
     = Blocked (Process Serving (Some rec_table) (Some "en")
         [ARelease 1005; ARespond 7 2; ANotify 3] []
         (MState [1; 5] [CallPush 1; CallSaveFilename 5 1005])).
Proof.
  split; [reflexivity|]. split; [exact rec_table_wired|].
  split; [|split; reflexivity].
  apply (serve_takes_the_slots_and_blocks script_next script_inbound
           rec_free rec_push rec_respond rec_notify "en" rec_save 10 p0
           eq_refl rec_table_wired).
Defined.

(** A second call of [serve], with another locale, while the first serves. *)
Lemma second_serve_witness :
  stage p_serving <> NotStarted
  /\ serve script_next rec_free rec_push rec_respond rec_notify "de" rec_save 10 p_serving
     = Returned (reported AlreadyStarted p_serving)
  /\ table (reported AlreadyStarted p_serving) = Some rec_table
  /\ locale (reported AlreadyStarted p_serving) = Some "en"
  /\ reports (reported AlreadyStarted p_serving) = [AlreadyStarted].
Proof.
  assert (H : stage p_serving <> NotStarted) by discriminate.
  split; [exact H|].
  split; [|repeat split].
  apply (second_serve_is_rejected script_next script_inbound
           rec_free rec_push rec_respond rec_notify "de" rec_save 10 p_serving
           [OpBackend; OpInbound (HandleURI 9)] H).
Defined.

(** A call of [serve] with no push callback. *)
Lemma serve_unusable_slot_witness :
  stage p0 = NotStarted
  /\ (exists p',
        serve script_next rec_free NullFn rec_respond rec_notify "en" rec_save 10 p0
        = Returned p'
        /\ stage p' = Failed
        /\ reports p' = [UnusableSlot]
        /\ machine p' = s0)
  /\ bridge_run script_next script_inbound [OpBackend; OpBackend]
       (serve_start rec_free NullFn rec_respond rec_notify "en" rec_save p0)
     = Some (Process Failed None None
               [APush 1; ASaveFilename 5; ARespond 7 2; ANotify 3] [UnusableSlot] s0).
Proof.
  split; [reflexivity|]. split; [|reflexivity].
  destruct (serve_fails_fast_on_an_unusable_slot script_next script_inbound
              rec_free NullFn rec_respond rec_notify "en" rec_save 10 p0
              [OpBackend] eq_refl (or_intror (or_introl eq_refl)))
    as (p' & Hserve & Hstage & Hreports & Hmachine & _).
  exists p'. repeat split; assumption.
Defined.

(** The locale after a start with ["en"], steps of the backend, a call from
    the shell and a further call of [serve] with ["de"]. *)
Lemma locale_witness :
  stage p0 = NotStarted
  /\ wired rec_table
  /\ locale p_serving = Some "en"
  /\ (exists q,
        bridge_run script_next script_inbound
          [OpBackend; OpInbound (HandleURI 9); OpServe rec_table "de"; OpBackend]
          p_serving = Some q
        /\ locale q = Some "en").
Proof.
  split; [reflexivity|]. split; [exact rec_table_wired|].
  pose proof (locale_is_set_once script_next script_inbound
                rec_free rec_push rec_respond rec_notify "en" rec_save 3 p0
                [OpBackend; OpInbound (HandleURI 9); OpServe rec_table "de"; OpBackend]
                eq_refl rec_table_wired) as H.
  cbv zeta in H. destruct H as (H1 & H2 & _).
  split; [exact H1 | exact H2].
Defined.

(** * Sequences of calls through all slots *)

Section SequenceFacts.
Context {W : Type}.
Implicit Types (s : mstate W) (tbl : CallbackTable W) (acts : list action).

(** One action: undefined exactly when its slot is null, and otherwise one
    call more in the log, the call of that action. *)
Lemma perform_slot tbl (a : action) s :
  match perform tbl a s with
  | Returns _ s' =>
      slot_null tbl a = false
      /\ exists e, calls s' = calls s ++ [e] /\ is_call_of a e = true
  | Undefined => slot_null tbl a = true
  end.
Proof.
  destruct tbl as [ff fp fr fn fs].
  destruct a as [msg | queryID msg | msg | name | p]; cbn [perform slot_null];
    unfold_monad; cbn.
  - destruct fp as [|body]; [reflexivity|]. rewrite pushNotify_Fn.
    split; [reflexivity|]. eexists; split; [reflexivity|].
    cbn. apply bool_decide_eq_true. reflexivity.
  - destruct fr as [|body]; [reflexivity|]. rewrite respond_Fn.
    split; [reflexivity|]. eexists; split; [reflexivity|].
    cbn. rewrite !bool_decide_eq_true_2 by reflexivity. reflexivity.
  - destruct fn as [|body]; [reflexivity|]. rewrite notifyUser_Fn.
    split; [reflexivity|]. eexists; split; [reflexivity|].
    cbn. apply bool_decide_eq_true. reflexivity.
  - destruct fs as [|body]; [reflexivity|]. rewrite getSaveFilename_Fn.
    split; [reflexivity|]. eexists; split; [reflexivity|].
    cbn. apply bool_decide_eq_true. reflexivity.
  - destruct ff as [|body]; [reflexivity|]. rewrite callHeapFree_Fn.
    split; [reflexivity|]. eexists; split; [reflexivity|].
    cbn. apply bool_decide_eq_true. reflexivity.
Qed.

Lemma perform_all_cons tbl (a : action) acts s :
  perform_all tbl (a :: acts) s
  = match perform tbl a s with
    | Returns _ s' => perform_all tbl acts s'
    | Undefined => Undefined
    end.
Proof. reflexivity. Qed.

Lemma perform_all_app_run tbl (xs ys : list action) s :
  perform_all tbl (xs ++ ys) s
  = match perform_all tbl xs s with
    | Returns _ s' => perform_all tbl ys s'
    | Undefined => Undefined
    end.
Proof.
  revert s. induction xs as [|a rest IH]; intros s.
  - reflexivity.
  - cbn [app]. rewrite !perform_all_cons.
    destruct (perform tbl a s) as [r s1|]; [apply IH | reflexivity].
Qed.

Lemma perform_all_calls tbl acts s :
  match perform_all tbl acts s with
  | Returns _ s' =>
      exists added, calls s' = calls s ++ added
                    /\ Forall2 (fun a e => is_call_of a e = true) acts added
  | Undefined => Exists (fun a => slot_null tbl a = true) acts
  end.
Proof.
  revert s. induction acts as [|a rest IH]; intros s.
  - exists []. split; [symmetry; apply app_nil_r | constructor].
  - rewrite perform_all_cons. pose proof (perform_slot tbl a s) as Ha.
    destruct (perform tbl a s) as [r s1|]; [|left; exact Ha].
    destruct Ha as (_ & e & Hcalls & He). specialize (IH s1).
    destruct (perform_all tbl rest s1) as [u s2|]; [|right; exact IH].
    destruct IH as (added & Hadded & Hall).
    exists (e :: added). split; [|constructor; assumption].
    rewrite Hadded, Hcalls, <- app_assoc. reflexivity.
Qed.

Lemma perform_all_defined tbl acts s :
  defined (perform_all tbl acts s)
  <-> Forall (fun a => slot_null tbl a = false) acts.
Proof.
  revert s. induction acts as [|a rest IH]; intros s.
  - split; [constructor | intros _; exact I].
  - rewrite perform_all_cons, Forall_cons.
    pose proof (perform_slot tbl a s) as Ha.
    destruct (perform tbl a s) as [r s1|].
    + destruct Ha as (Ha & _). rewrite IH. tauto.
    + cbn. rewrite Ha. split; [tauto | intros [? _]; discriminate].
Qed.

(** X1: whatever the backend sends through the bridge, in whatever mix of
    slots, the log grows by exactly one call per action, in the order of the
    actions, each through the slot of its action and with its arguments; so
    the answers, the alerts and the save requests reach the shell in the
    order of issue as the pushes do. The sequence is undefined only if one
    of its actions goes through a null slot. *)
Theorem every_action_is_one_call_in_order tbl acts s :
  match perform_all tbl acts s with
  | Returns _ s' =>
      exists added, calls s' = calls s ++ added
                    /\ Forall2 (fun a e => is_call_of a e = true) acts added
  | Undefined => Exists (fun a => slot_null tbl a = true) acts
  end.
Proof.
  pose proof (perform_all_calls tbl acts s) as H.
  destruct (perform_all tbl acts s); exact H.
Qed.

(** X2: a null slot does harm only when it is used: a sequence of actions
    has a result exactly when none of its actions goes through a null slot,
    whatever the other slots of the table hold. *)
Theorem null_slot_harms_only_when_used tbl acts s :
  defined (perform_all tbl acts s)
  <-> Forall (fun a => slot_null tbl a = false) acts.
Proof.
  pose proof (perform_all_defined tbl acts s) as [Hthen Hback].
  split; [exact Hthen | exact Hback].
Qed.

End SequenceFacts.

(** * The run up to a call through a null slot *)

Section FaultFacts.
Context {W : Type}.
Implicit Types (s : mstate W) (tbl : CallbackTable W) (acts : list action).

(** The run with its stopping state is the run of [perform_all]: it gets to
    the end exactly when [perform_all] returns, in the same state. *)
Lemma perform_until_fault_agrees tbl acts s :
  match perform_all tbl acts s with
  | Returns _ s' => perform_until_fault tbl acts s = (s', [])
  | Undefined => (perform_until_fault tbl acts s).2 <> []
  end.
Proof.
  revert s. induction acts as [|a rest IH]; intros s.
  - reflexivity.
  - rewrite perform_all_cons. cbn [perform_until_fault].
    destruct (perform tbl a s) as [r s1|]; [apply IH | discriminate].
Qed.

Lemma perform_until_fault_stops tbl (before : list action) (a : action)
    (after : list action) s :
  Forall (fun b => slot_null tbl b = false) before ->
  slot_null tbl a = true ->
  exists s1,
    perform_all tbl before s = Returns tt s1
    /\ perform_until_fault tbl (before ++ a :: after) s = (s1, a :: after).
Proof.
  intros Hbefore Hnull. revert s.
  induction Hbefore as [|b rest Hb Hrest IH]; intros s.
  - exists s. split; [reflexivity|]. cbn [app perform_until_fault].
    pose proof (perform_slot tbl a s) as Ha.
    destruct (perform tbl a s) as [r s1|]; [|reflexivity].
    destruct Ha as (Ha & _). congruence.
  - rewrite perform_all_cons. cbn [app perform_until_fault].
    pose proof (perform_slot tbl b s) as Hs.
    destruct (perform tbl b s) as [r s1|]; [apply IH | congruence].
Qed.

(** X3: with a null slot the run fails at the first call through it and not
    before: in the very run that fails, the actions issued before that call
    have all been made when it stops, one call each in order, the shell is
    in the state those calls left it in, and the action through the null
    slot and everything after it have not been made. *)
Theorem undefined_at_the_first_use_of_a_null_slot
    tbl (before : list action) (a : action) (after : list action) s
    (Hbefore : Forall (fun b => slot_null tbl b = false) before)
    (Hnull : slot_null tbl a = true) :
  perform_all tbl (before ++ a :: after) s = Undefined
  /\ exists s1 added,
      perform_until_fault tbl (before ++ a :: after) s = (s1, a :: after)
      /\ calls s1 = calls s ++ added
      /\ Forall2 (fun b e => is_call_of b e = true) before added
      /\ perform_all tbl before s = Returns tt s1.
Proof.
  destruct (perform_until_fault_stops tbl before a after s Hbefore Hnull)
    as (s1 & Hrun & Hstop).
  split.
  - rewrite perform_all_app_run, Hrun, perform_all_cons.
    pose proof (perform_slot tbl a s1) as Ha.
    destruct (perform tbl a s1) as [r s2|]; [|reflexivity].
    destruct Ha as (Ha & _). congruence.
  - pose proof (perform_all_calls tbl before s) as Hcalls.
    rewrite Hrun in Hcalls. destruct Hcalls as (added & Hadded & Hall).
    exists s1, added. auto.
Qed.

End FaultFacts.

(** The shell without a save dialog: the push and the answer have reached
    the shell when the request for a file name stops the run; the alert
    after it is never made. *)
Lemma first_use_of_a_null_slot_witness :
  Forall (fun b => slot_null
                     (Build_CallbackTable (list Z) rec_free rec_push rec_respond
                        rec_notify NullFn) b = false)
    [APush 1; ARespond 7 2]
  /\ slot_null (Build_CallbackTable (list Z) rec_free rec_push rec_respond
                  rec_notify NullFn) (ASaveFilename 5) = true
  /\ perform_until_fault
       (Build_CallbackTable (list Z) rec_free rec_push rec_respond rec_notify NullFn)
       ([APush 1; ARespond 7 2] ++ ASaveFilename 5 :: [ANotify 3]) s0
     = (MState [1; 7; 2] [CallPush 1; CallRespond 7 2],
        [ASaveFilename 5; ANotify 3])
  /\ perform_all
       (Build_CallbackTable (list Z) rec_free rec_push rec_respond rec_notify NullFn)
       ([APush 1; ARespond 7 2] ++ ASaveFilename 5 :: [ANotify 3]) s0
     = Undefined.
Proof.
  assert (H1 : Forall (fun b => slot_null
                     (Build_CallbackTable (list Z) rec_free rec_push rec_respond
                        rec_notify NullFn) b = false) [APush 1; ARespond 7 2])
    by (repeat constructor).
  split; [exact H1|]. split; [reflexivity|]. split; [reflexivity|].
  apply (undefined_at_the_first_use_of_a_null_slot
           (Build_CallbackTable (list Z) rec_free rec_push rec_respond rec_notify NullFn)
           [APush 1; ARespond 7 2] (ASaveFilename 5) [ANotify 3] s0 H1 eq_refl).
Defined.

(** * What [getSaveFilename] hands over *)

Lemma fresh_block_spec (h : shell_heap) :
  fresh_block h <> NULL /\ blocks h !! fresh_block h = None.
Proof.
  unfold fresh_block.
  pose proof (is_fresh ({[NULL]} ∪ dom (blocks h))) as Hfresh.
  split.
  - intros Heq. apply Hfresh. apply elem_of_union. left.
    apply elem_of_singleton. exact Heq.
  - apply not_elem_of_dom. set_solver.
Qed.

Lemma buffer_to_release_Some (h : shell_heap) (r : ptr) (content : string) :
  buffer_to_release h r = Some content
  <-> r <> NULL /\ blocks h !! r = Some content.
Proof.
  unfold buffer_to_release. destruct (decide (r = NULL)) as [Hr|Hr].
  - split; [discriminate | intros [? _]; contradiction].
  - tauto.
Qed.

(** The claim about the result holds of a callback exactly when it returns
    the null pointer or a live block that holds a string that is not empty. *)
Lemma save_result_as_claimed_iff (body : ptr -> shell_heap -> ptr * shell_heap)
    (name : ptr) (s : mstate shell_heap) :
  save_result_as_claimed (Fn body) name s
  <-> (body name (shell s)).1 = NULL
      \/ exists content,
           blocks (body name (shell s)).2 !! (body name (shell s)).1 = Some content
           /\ content <> String.EmptyString.
Proof.
  unfold save_result_as_claimed. rewrite getSaveFilename_Fn. cbn [shell].
  destruct (body name (shell s)) as [r h]. cbn [fst snd].
  unfold spec_sentinel, buffer_to_release.
  destruct (decide (r = NULL)) as [Hr|Hr].
  - split; [auto | intros _; split; auto].
  - destruct (blocks h !! r) as [content|] eqn:Hblock.
    + split.
      * intros [_ Hno]. right. exists content. split; [reflexivity|].
        intros ->. specialize (Hno (or_intror eq_refl)). discriminate.
      * intros [Hnull | (c & Hc & Hne)]; [contradiction|].
        injection Hc as ->. split; [left; eexists; reflexivity|].
        intros [Hnull | Hempty]; [contradiction | congruence].
    + split.
      * intros [[[c Hc] | [Hnull | Hempty]] _];
          [discriminate | contradiction | discriminate].
      * intros [Hnull | (c & Hc & _)]; [contradiction | discriminate].
Qed.


